(** * column.py: gas concentration along a treatment column

    A shallow embedding of [scripts/column.py].  The script defines eight
    module-level parameters, the right-hand side [dCgdz] of a scalar ODE,
    an initial condition and a 100-point grid, calls an ODE solver and
    plots the normalised solution.

    Numbers.  Python evaluates the script in binary64 floating point.  In
    [Column] every number is an exact rational ([Q]): a decimal literal
    such as [0.9] stands for the rational 9/10 and the four arithmetic
    operations are exact, so [Column] gives the value of the expressions
    without rounding.  [B64] reads the rate function in binary64, where
    rounding decides.  Python's [ZeroDivisionError] is modelled in both.

    Libraries.  [np.linspace] is modelled after its documentation, the
    solver [scipy.integrate.odeint] is a parameter of the script, and a
    pyplot call is recorded as an event on the current figure. *)

From Stdlib Require Import String ZArith QArith Qabs Lqa Lia Bool Arith List.
From Corelib Require Import PrimFloat FloatOps SpecFloat.
Import ListNotations.

Open Scope Q_scope.

(** ** A small model of the Python run time *)

Module Py.

(** Exceptions: the one arithmetic can raise, and any other one, by its
    message. *)
Inductive exn : Type :=
| ZeroDivisionError
| OtherError (msg : string).

Inductive result (A : Type) : Type :=
| Ok (a : A)
| Raise (e : exn).
Arguments Ok {A} a.
Arguments Raise {A} e.

(** What a pyplot call does to the current figure. [Savefig] is the one
    pyplot call that writes a file. *)
Inductive event : Type :=
| Plot (xs ys : list Q)
| Xlabel (s : string)
| Ylabel (s : string)
| Show
| Savefig (path : string).

Definition writes_file (e : event) : bool :=
  match e with
  | Savefig _ => true
  | _ => false
  end.

Section StateAndErrors.
(** [world] is everything a statement can read or change. *)
Variable world : Type.

Definition M (A : Type) : Type := world -> result A * world.

Definition ret {A} (a : A) : M A := fun w => (Ok a, w).

Definition raise {A} (e : exn) : M A := fun w => (Raise e, w).

Definition bind {A B} (c : M A) (k : A -> M B) : M B :=
  fun w =>
    match c w with
    | (Ok a, w') => k a w'
    | (Raise e, w') => (Raise e, w')
    end.

Definition gets {A} (f : world -> A) : M A := fun w => (Ok (f w), w).

Definition modify (f : world -> world) : M unit := fun w => (Ok tt, f w).

(** [a / b] on Python numbers: a zero divisor raises.  (On NumPy arrays
    the same division warns and yields an infinity or a NaN instead; the
    guarded form is the stricter of the two.) *)
Definition truediv (a b : Q) : M Q :=
  if Qeq_bool b 0 then raise ZeroDivisionError else ret (a / b).
End StateAndErrors.

Arguments ret {world A} a.
Arguments raise {world A} e.
Arguments bind {world A B} c k.
Arguments gets {world A} f.
Arguments modify {world} f.
Arguments truediv {world} a b.

Declare Scope py_scope.
Delimit Scope py_scope with py.
Notation "x <- c ;; k" := (bind c (fun x => k))
  (at level 100, c at next level, right associativity) : py_scope.
Notation "c ;; k" := (bind c (fun _ => k))
  (at level 100, right associativity) : py_scope.

End Py.

Import Py.
Open Scope py_scope.

(** ** The script *)

Module Column.

(** The module-level names the rate function reads when it is called. *)
Record globals : Type := {
  alpha : Q;
  V0 : Q;
  X : Q;
  Y : Q;
  mu : Q;
  K : Q;
  m : Q;
  delta : Q
}.

(** The module namespace and the state of the pyplot figure. *)
Record world : Type := {
  env : globals;
  figure : list event
}.

(** Lines 6-13: the parameters as the script assigns them. *)
Definition params : globals := {|
  alpha := 9 # 10;
  V0 := 2;
  X := 2;
  Y := 5;
  mu := 5;
  K := 1;
  m := 1;
  delta := 1 # 1000
|}.

(** A world in which the parameter block has run. *)
Definition loaded (fig : list event) : world :=
  {| env := params; figure := fig |}.

Definition load (name : globals -> Q) : M world Q :=
  gets (fun w => name (env w)).

(** Lines 16-17.  Unary minus binds tighter than [*] and [/], which
    associate to the left, so the expression is
    [((((((((-alpha) / V0) * X) / Y) * mu) * Cg) / m) / (K + (Cg / m))) * delta],
    and its operands are evaluated from left to right.  [z] is not used. *)
Definition dCgdz (Cg z : Q) : M world Q :=
  a <- load alpha ;;
  v <- load V0 ;;
  t <- truediv (- a) v ;;
  x <- load X ;;
  t <- ret (t * x) ;;
  y <- load Y ;;
  t <- truediv t y ;;
  u <- load mu ;;
  t <- ret (t * u) ;;
  t <- ret (t * Cg) ;;
  d <- load m ;;
  t <- truediv t d ;;
  k <- load K ;;
  d <- load m ;;
  c <- truediv Cg d ;;
  t <- truediv t (k + c) ;;
  e <- load delta ;;
  ret (t * e).

(** The value [dCgdz] computes when no division fails, with the grouping
    of the source expression written out. *)
Definition rate (g : globals) (Cg : Q) : Q :=
  ((((((((- alpha g) / V0 g) * X g) / Y g) * mu g) * Cg) / m g)
     / (K g + (Cg / m g))) * delta g.

(** The divisors the evaluation of [dCgdz] meets. *)
Definition divisors (g : globals) (Cg : Q) : list Q :=
  [V0 g; Y g; m g; m g; K g + Cg / m g].

(** The right-hand side as section 4.1 of the specification writes it:
    -(alpha/V0) (X/Y) mu (Cg/m) / (K + Cg/m) delta. *)
Definition dCgdz_spec (g : globals) (Cg : Q) : Q :=
  (- (alpha g / V0 g) * (X g / Y g) * mu g * (Cg / m g))
    / (K g + Cg / m g) * delta g.

(** Line 20. *)
Definition Cg0 : Q := 195 # 1000000.

(** [np.arange(0, num)] as numbers. *)
Definition arange (num : nat) : list Q :=
  map (fun i => inject_Z (Z.of_nat i)) (seq 0 num).

(** [y[-1] = v]. *)
Definition set_last (y : list Q) (v : Q) : list Q :=
  match y with
  | [] => []
  | _ :: _ => removelast y ++ [v]
  end.

(** Modelled from the spec: [np.linspace] is NumPy's and its code is not
    among the sources; section 3 of the specification describes the result
    as "an ordered sequence of 100 evenly spaced z-values from 0 to 5".
    The definition follows NumPy's documented algorithm for
    [linspace(start, stop, num)] with the end point included: the step is
    [(stop - start) / (num - 1)], sample [i] is [i * step + start], and the
    last sample is then set to [stop]. *)
Definition linspace (start stop : Q) (num : nat) : list Q :=
  let div := (num - 1)%nat in
  let width := stop - start in
  let y := arange num in
  let y :=
    if (0 <? div)%nat then
      let step := width / inject_Z (Z.of_nat div) in
      if Qeq_bool step 0
      then map (fun v => v / inject_Z (Z.of_nat div) * width) y
      else map (fun v => v * step) y
    else map (fun v => v * width) y in
  let y := map (fun v => v + start) y in
  if (1 <? num)%nat then set_last y stop else y.

(** Line 23. *)
Definition z : list Q := linspace 0 5 100.

(** Consecutive pairs of a sequence. *)
Definition adjacent {A} (l : list A) : list (A * A) := combine l (tl l).

(** The interface of an initial-value solver as line 26 uses it: a
    right-hand side [func(y, t)], an initial value and the grid; it
    returns the solution array (one column here, kept as a list) or
    raises. *)
Definition solver : Type :=
  (Q -> Q -> result Q) -> Q -> list Q -> result (list Q).

(** Modelled from the spec: [scipy.integrate.odeint] is SciPy's and its
    code is not among the sources.  Section 3 of the specification gives
    the invariant of its result: "same length as grid, first value equals
    the initial condition". *)
Definition solution_invariant (odeint : solver) : Prop :=
  forall func y0 t ys,
    odeint func y0 t = Ok ys ->
    length ys = length t /\ (t <> [] -> hd_error ys = Some y0).

(** The simplest solver with that invariant: it holds the initial value
    at every grid point.  It only shows that the invariant can be met. *)
Definition hold : solver := fun _ y0 t => Ok (map (fun _ => y0) t).

(** Calling the solver with [dCgdz] as right-hand side: each call-back
    runs [dCgdz] in the current world. *)
Definition call (odeint : solver) (y0 : Q) (t : list Q) : M world (list Q) :=
  fun w => (odeint (fun c s => fst (dCgdz c s w)) y0 t, w).

(** [y / Cg0] on an array: elementwise. *)
Definition normalized (y : list Q) : list Q := map (fun v => v / Cg0) y.

Definition pyplot (e : event) : M world unit :=
  modify (fun w => {| env := env w; figure := figure w ++ [e] |}).

(** Lines 26-32, after the parameter block, [Cg0] and [z]. *)
Definition script (odeint : solver) : M world unit :=
  y <- call odeint Cg0 z ;;
  pyplot (Plot z (normalized y)) ;;
  pyplot (Xlabel "z [m]") ;;
  pyplot (Ylabel "Cg [g/L]") ;;
  pyplot Show.

(** The whole program, from an empty figure. *)
Definition main (odeint : solver) : result unit * world :=
  script odeint (loaded []).

End Column.

Import Column.

(** ** The rate function in binary64

    The same lines 6-17 with Python's floats: every literal is the nearest
    binary64 number, every operation rounds to nearest even, and an
    integer parameter is converted exactly when it meets a float. *)

Module B64.

Local Open Scope float_scope.
Set Warnings "-inexact-float".

Record globals : Type := {
  alpha : float;
  V0 : float;
  X : float;
  Y : float;
  mu : float;
  K : float;
  m : float;
  delta : float
}.

(** Lines 6-13. *)
Definition params : globals := {|
  alpha := 0.9;
  V0 := 2;
  X := 2;
  Y := 5;
  mu := 5;
  K := 1;
  m := 1;
  delta := 0.001
|}.

(** [a / b] on Python floats: a zero divisor, of either sign, raises. *)
Definition truediv (a b : float) : M globals float :=
  if b =? 0 then raise ZeroDivisionError else ret (a / b).

Definition load (name : globals -> float) : M globals float := gets name.

(** Lines 16-17, operation by operation as in [Column.dCgdz]. *)
Definition dCgdz (Cg z : float) : M globals float :=
  a <- load alpha ;;
  v <- load V0 ;;
  t <- truediv (- a) v ;;
  x <- load X ;;
  t <- ret (t * x) ;;
  y <- load Y ;;
  t <- truediv t y ;;
  u <- load mu ;;
  t <- ret (t * u) ;;
  t <- ret (t * Cg) ;;
  d <- load m ;;
  t <- truediv t d ;;
  k <- load K ;;
  d <- load m ;;
  c <- truediv Cg d ;;
  t <- truediv t (k + c) ;;
  e <- load delta ;;
  ret (t * e).

Set Warnings "+inexact-float".


End B64.

(** ** The rate function *)

Lemma truediv_ok {W} (a b : Q) (w : W) :
  ~ b == 0 -> truediv a b w = (Ok (a / b), w).
Proof.
  intros Hb. unfold truediv.
  destruct (Qeq_bool b 0) eqn:E; [|reflexivity].
  apply Qeq_bool_iff in E. contradiction.
Qed.

Lemma truediv_zero {W} (a b : Q) (w : W) :
  b == 0 -> truediv a b w = (Raise ZeroDivisionError, w).
Proof.
  intros Hb. unfold truediv.
  apply Qeq_bool_iff in Hb. rewrite Hb. reflexivity.
Qed.

(** Unfold the monad down to the divisions. *)
Ltac run_py := unfold bind, load, gets, ret; cbv beta iota.

(** A division whose divisor is known to be nonzero. *)
Ltac div_ok := rewrite truediv_ok by assumption; cbv beta iota.

(** A division by [d]: either it raises and the goal is closed, or it
    returns and evaluation goes on. *)
Ltac div_or_raise d :=
  destruct (Qeq_dec d 0);
  [rewrite truediv_zero by assumption; reflexivity | div_ok].

(** With every divisor nonzero the call returns [rate] and leaves the
    world as it found it. *)
Lemma dCgdz_ok (Cg s : Q) (w : world) :
  Forall (fun d => ~ d == 0) (divisors (env w) Cg) ->
  dCgdz Cg s w = (Ok (rate (env w) Cg), w).
Proof.
  unfold divisors. intros H.
  repeat match goal with
         | H : Forall _ (_ :: _) |- _ => inversion H; subst; clear H
         end.
  unfold dCgdz. run_py. repeat div_ok. reflexivity.
Qed.

(** With a zero divisor the call raises, again without touching the
    world. *)
Lemma dCgdz_raises (Cg s : Q) (w : world) :
  Exists (fun d => d == 0) (divisors (env w) Cg) ->
  dCgdz Cg s w = (Raise ZeroDivisionError, w).
Proof.
  unfold divisors. intros H.
  unfold dCgdz. run_py.
  div_or_raise (V0 (env w)).
  div_or_raise (Y (env w)).
  div_or_raise (m (env w)). div_ok.
  div_or_raise (K (env w) + Cg / m (env w)).
  exfalso.
  repeat match goal with
         | H : Exists _ (_ :: _) |- _ => inversion H; subst; clear H
         | H : Exists _ [] |- _ => inversion H
         end; contradiction.
Qed.

Lemma divisors_dec (g : globals) (Cg : Q) :
  {Forall (fun d => ~ d == 0) (divisors g Cg)} +
  {Exists (fun d => d == 0) (divisors g Cg)}.
Proof.
  induction (divisors g Cg) as [|d l IH].
  - left. constructor.
  - destruct (Qeq_dec d 0) as [E|E].
    + right. now constructor.
    + destruct IH as [IH|IH].
      * left. now constructor.
      * right. now constructor 2.
Qed.

(** The grouping of the source expression and the grouping of the
    specification denote the same number, whatever the parameters. *)
Lemma rate_spec (g : globals) (Cg : Q) : rate g Cg == dCgdz_spec g Cg.
Proof. unfold rate, dCgdz_spec, Qdiv. ring. Qed.

Lemma divisors_params (Cg : Q) :
  ~ 1 + Cg == 0 -> Forall (fun d => ~ d == 0) (divisors params Cg).
Proof.
  intros H. unfold divisors, params; cbn.
  repeat constructor; try discriminate.
  intros E. apply H. rewrite <- E. field.
Qed.




(** C1: whatever the parameters, the concentration and the position, the
    left-to-right grouping of the source expression denotes the number
    -(alpha/V0) (X/Y) mu (Cg/m) / (K + Cg/m) delta of the specification;
    a call of [dCgdz] that returns, returns that number, and a call raises
    only where a divisor of the expression is zero. *)
Theorem dCgdz_returns_spec_expression (Cg s : Q) (w : world) :
  rate (env w) Cg == dCgdz_spec (env w) Cg /\
  match fst (dCgdz Cg s w) with
  | Ok v =>
      v == dCgdz_spec (env w) Cg /\
      Forall (fun d => ~ d == 0) (divisors (env w) Cg)
  | Raise e =>
      e = ZeroDivisionError /\
      Exists (fun d => d == 0) (divisors (env w) Cg)
  end.
Proof.
  split; [apply rate_spec|].
  destruct (divisors_dec (env w) Cg) as [H|H].
  - rewrite (dCgdz_ok Cg s w H). cbn. split; [apply rate_spec | exact H].
  - rewrite (dCgdz_raises Cg s w H). cbn. split; [reflexivity | exact H].
Qed.

(** C2: at zero concentration the rate function returns zero, at every
    position. *)
Theorem dCgdz_zero_concentration (s : Q) (fig : list event) :
  exists v, dCgdz 0 s (loaded fig) = (Ok v, loaded fig) /\ v == 0.
Proof.
  exists (rate params 0). split.
  - apply (dCgdz_ok 0 s (loaded fig)). apply divisors_params. discriminate.
  - reflexivity.
Qed.

(** C6: the rate function does not depend on its second argument, leaves
    the world (module globals and figure) unchanged, and its result is
    the same in any two worlds that agree on the parameters. *)
Theorem dCgdz_pure_in_Cg (Cg z1 z2 : Q) (w : world) :
  dCgdz Cg z1 w = dCgdz Cg z2 w /\
  snd (dCgdz Cg z1 w) = w /\
  (forall w', env w' = env w -> fst (dCgdz Cg z1 w') = fst (dCgdz Cg z2 w)).
Proof.
  assert (P : forall (t : Q) (u : world),
             dCgdz Cg t u =
             (if divisors_dec (env u) Cg
              then Ok (rate (env u) Cg)
              else Raise ZeroDivisionError, u)).
  { intros t u. destruct (divisors_dec (env u) Cg) as [H|H].
    - apply dCgdz_ok, H.
    - apply dCgdz_raises, H. }
  split; [|split].
  - reflexivity.
  - now rewrite P.
  - intros w' E. rewrite !P. cbn. now rewrite E.
Qed.

Lemma dCgdz_pure_in_Cg_witness :
  fst (dCgdz Cg0 0 (loaded [Show])) = fst (dCgdz Cg0 5 (loaded [])).
Proof.
  apply (proj2 (proj2 (dCgdz_pure_in_Cg Cg0 0 5 (loaded [])))).
  reflexivity.
Defined.

(** C7: for a nonnegative concentration every divisor met while
    evaluating the rate function ([V0], [Y], [m] and [K + Cg/m]) is
    nonzero under the script's parameters, and the call returns a value
    instead of raising. *)
Theorem dCgdz_no_zero_division (Cg s : Q) (fig : list event) :
  0 <= Cg ->
  Forall (fun d => ~ d == 0) (divisors params Cg) /\
  exists v, dCgdz Cg s (loaded fig) = (Ok v, loaded fig).
Proof.
  intros H.
  assert (D : Forall (fun d => ~ d == 0) (divisors params Cg))
    by (apply divisors_params; lra).
  split; [exact D|].
  exists (rate params Cg). apply (dCgdz_ok Cg s (loaded fig)), D.
Qed.

Lemma dCgdz_no_zero_division_witness :
  Forall (fun d => ~ d == 0) (divisors params 0) /\
  exists v, dCgdz 0 (5 # 99) (loaded []) = (Ok v, loaded []).
Proof. apply (dCgdz_no_zero_division 0 (5 # 99) []). discriminate. Defined.




(** ** The integration grid *)

Lemma nth_map_in {A B} (f : A -> B) (l : list A) (i : nat) (d : B) (d' : A) :
  (i < length l)%nat -> nth i (map f l) d = f (nth i l d').
Proof.
  intros H. rewrite (nth_indep _ d (f d')) by now rewrite length_map.
  apply map_nth.
Qed.

Lemma length_arange (num : nat) : length (arange num) = num.
Proof. unfold arange. now rewrite length_map, length_seq. Qed.

Lemma nth_arange (num i : nat) :
  (i < num)%nat -> nth i (arange num) 0 = inject_Z (Z.of_nat i).
Proof.
  intros H. unfold arange.
  rewrite (nth_map_in _ _ _ _ 0%nat) by now rewrite length_seq.
  now rewrite seq_nth.
Qed.

Lemma length_set_last (y : list Q) (v : Q) : length (set_last y v) = length y.
Proof.
  destruct y as [|a y]; [reflexivity|].
  unfold set_last. rewrite length_app, removelast_firstn_len, length_firstn.
  cbn [length]. lia.
Qed.

Lemma nth_set_last (y : list Q) (v : Q) (i : nat) :
  (i < length y)%nat ->
  nth i (set_last y v) 0 = if (S i =? length y)%nat then v else nth i y 0.
Proof.
  intros H. destruct y as [|a y]; [inversion H|].
  unfold set_last. set (l := a :: y) in *.
  assert (L : length (removelast l) = pred (length l)).
  { rewrite removelast_firstn_len, length_firstn. lia. }
  destruct (S i =? length l)%nat eqn:E.
  - apply Nat.eqb_eq in E.
    rewrite app_nth2 by lia.
    replace (i - length (removelast l))%nat with 0%nat by lia. reflexivity.
  - apply Nat.eqb_neq in E.
    rewrite app_nth1 by lia.
    rewrite removelast_firstn_len, nth_firstn.
    destruct (i <? pred (length l))%nat eqn:F; [reflexivity|].
    apply Nat.ltb_ge in F. lia.
Qed.

Lemma length_linspace (start stop : Q) (num : nat) :
  length (linspace start stop num) = num.
Proof.
  unfold linspace.
  destruct (1 <? num)%nat; [rewrite length_set_last|];
    destruct (0 <? num - 1)%nat;
    try destruct (Qeq_bool _ 0);
    now rewrite !length_map, length_arange.
Qed.

(** Sample [i] of a grid of at least two points, up to equality of
    rationals. *)
Lemma nth_linspace (start stop : Q) (num i : nat) :
  (1 < num)%nat -> (i < num)%nat ->
  nth i (linspace start stop num) 0 ==
  start + inject_Z (Z.of_nat i)
          * ((stop - start) / inject_Z (Z.of_nat (num - 1))).
Proof.
  intros Hn Hi. unfold linspace.
  assert (Hd : ~ inject_Z (Z.of_nat (num - 1)) == 0).
  { change 0 with (inject_Z 0). rewrite inject_Z_injective. lia. }
  replace (1 <? num)%nat with true by (symmetry; apply Nat.ltb_lt; lia).
  replace (0 <? num - 1)%nat with true by (symmetry; apply Nat.ltb_lt; lia).
  set (d := inject_Z (Z.of_nat (num - 1))) in *.
  match goal with
  | |- nth i (set_last ?l _) 0 == _ => set (y := l)
  end.
  assert (Ly : length y = num).
  { subst y. destruct (Qeq_bool _ 0); now rewrite !length_map, length_arange. }
  assert (Hy : nth i y 0 == start + inject_Z (Z.of_nat i) * ((stop - start) / d)).
  { subst y. destruct (Qeq_bool _ 0);
      rewrite (nth_map_in _ _ _ _ 0) by (now rewrite length_map, length_arange);
      rewrite (nth_map_in _ _ _ _ 0) by (now rewrite length_arange);
      rewrite nth_arange by assumption; field; exact Hd. }
  rewrite nth_set_last by lia. rewrite Ly.
  destruct (S i =? num)%nat eqn:E; [|exact Hy].
  apply Nat.eqb_eq in E.
  replace (Z.of_nat i) with (Z.of_nat (num - 1)) by (f_equal; lia).
  fold d. field. exact Hd.
Qed.

(** The last sample is [stop] itself. *)
Lemma last_linspace (start stop : Q) (num : nat) :
  (1 < num)%nat -> last (linspace start stop num) 0 = stop.
Proof.
  intros Hn. unfold linspace.
  replace (1 <? num)%nat with true by (symmetry; apply Nat.ltb_lt; lia).
  match goal with
  | |- last (set_last ?l _) 0 = _ => set (y := l)
  end.
  assert (Ly : length y = num).
  { subst y. destruct (0 <? num - 1)%nat; try destruct (Qeq_bool _ 0);
      now rewrite !length_map, length_arange. }
  destruct y as [|a y]; [cbn in Ly; lia|].
  unfold set_last. apply last_last.
Qed.

Lemma Forall_adjacent {A} (P : A * A -> Prop) (l : list A) (d : A) :
  (forall i, (S i < length l)%nat -> P (nth i l d, nth (S i) l d)) ->
  Forall P (adjacent l).
Proof.
  unfold adjacent. induction l as [|a l IH]; intros H; [constructor|].
  destruct l as [|b l]; [constructor|].
  cbn [tl combine]. constructor.
  - apply (H 0%nat). cbn. lia.
  - apply IH. intros i Hi. apply (H (S i)). cbn in *. lia.
Qed.

(** Consecutive samples of a grid of at least two points are one step
    apart. *)
Lemma linspace_spacing (start stop : Q) (num : nat) :
  (1 < num)%nat ->
  Forall (fun p => snd p - fst p ==
                   (stop - start) / inject_Z (Z.of_nat (num - 1)))
         (adjacent (linspace start stop num)).
Proof.
  intros Hn. apply (Forall_adjacent _ _ 0).
  rewrite length_linspace. intros i Hi. cbn [fst snd].
  rewrite !nth_linspace by lia.
  rewrite Nat2Z.inj_succ, <- Z.add_1_r, inject_Z_plus.
  change (inject_Z 1) with 1. ring.
Qed.

(** C4: the grid has exactly 100 values, starts at 0, ends at 5, and any
    two consecutive values differ by the same spacing 5/99, so the grid is
    strictly increasing. *)
Theorem grid_evenly_spaced :
  length z = 100%nat /\
  hd 0 z == 0 /\
  last z 0 == 5 /\
  Forall (fun p => snd p - fst p == 5 # 99) (adjacent z) /\
  Forall (fun p => fst p < snd p) (adjacent z).
Proof.
  assert (Hs : Forall (fun p => snd p - fst p == 5 # 99) (adjacent z)).
  { eapply Forall_impl; [|apply (linspace_spacing 0 5 100); lia].
    intros p Hp. rewrite Hp. reflexivity. }
  split; [|split; [|split; [|split]]].
  - apply length_linspace.
  - change (hd 0 z) with (nth 0 z 0). unfold z.
    rewrite nth_linspace by lia. reflexivity.
  - unfold z. rewrite last_linspace by lia. reflexivity.
  - exact Hs.
  - eapply Forall_impl; [|exact Hs]. intros p Hp. cbn beta in Hp. lra.
Qed.

(** ** Solving and plotting *)

Lemma Cg0_nonzero : ~ Cg0 == 0.
Proof. discriminate. Qed.

Lemma hold_invariant : solution_invariant hold.
Proof.
  intros func y0 t ys H. injection H as <-.
  rewrite length_map. split; [reflexivity|].
  destruct t; [congruence | reflexivity].
Qed.

(** The four pyplot calls, run after a solver call that returned [y]. *)
Lemma script_after_solver (odeint : solver) (w : world) (y : list Q) :
  fst (call odeint Cg0 z w) = Ok y ->
  script odeint w =
  (Ok tt,
   {| env := env w;
      figure := figure w ++ [Plot z (normalized y); Xlabel "z [m]";
                             Ylabel "Cg [g/L]"; Show] |}).
Proof.
  unfold script, bind, call, pyplot, modify. cbn [fst].
  intros ->. cbn. now rewrite <- !app_assoc.
Qed.

(** The script has no handler: an exception of the solver call ends the
    run at line 26, before any pyplot call. *)
Lemma script_solver_raises (odeint : solver) (w : world) (e : exn) :
  fst (call odeint Cg0 z w) = Raise e ->
  script odeint w = (Raise e, w).
Proof.
  unfold script, bind, call. cbn [fst]. intros ->. reflexivity.
Qed.

(** C8: the script plots the grid against the elementwise ratio
    Solution/Cg0, labels the x axis "z [m]" and the y axis "Cg [g/L]",
    shows the figure, and makes no pyplot call that writes a file. *)
Theorem script_plots_normalized_solution (odeint : solver) :
  figure (snd (main odeint)) =
  match fst (call odeint Cg0 z (loaded [])) with
  | Ok y =>
      [Plot z (map (fun v => v / Cg0) y); Xlabel "z [m]";
       Ylabel "Cg [g/L]"; Show]
  | Raise _ => []
  end /\
  existsb writes_file (figure (snd (main odeint))) = false.
Proof.
  unfold main.
  destruct (fst (call odeint Cg0 z (loaded []))) as [y|e] eqn:E.
  - rewrite (script_after_solver _ _ _ E). cbn. split; reflexivity.
  - rewrite (script_solver_raises _ _ _ E). cbn. split; reflexivity.
Qed.

(** ** Sample runs *)

Example dCgdz_at_Cg0 :
  exists v, dCgdz Cg0 0 (loaded []) = (Ok v, loaded []) /\
            v == - (351 # 2000390000).
Proof. eexists. split; [vm_compute; reflexivity | reflexivity]. Qed.

Example dCgdz_at_minus_one :
  dCgdz (- (1)) 0 (loaded []) = (Raise ZeroDivisionError, loaded []).
Proof. reflexivity. Qed.

Example linspace_three :
  Forall2 Qeq (linspace 0 1 3) [0; 1 # 2; 1].
Proof. repeat constructor. Qed.

Example main_with_hold :
  fst (main hold) = Ok tt /\
  List.length (figure (snd (main hold))) = 4%nat.
Proof. split; reflexivity. Qed.

(** ** Further properties of the script *)

(** X8: the script fails exactly when the solver call fails, with the
    solver's own exception; the world is then as it was before line 26,
    so nothing has been plotted. *)
Theorem script_fails_only_with_solver (odeint : solver) (w : world) (e : exn) :
  (fst (script odeint w) = Raise e <->
   fst (call odeint Cg0 z w) = Raise e) /\
  (fst (script odeint w) = Raise e -> snd (script odeint w) = w).
Proof.
  destruct (fst (call odeint Cg0 z w)) as [y|e'] eqn:E.
  - rewrite (script_after_solver _ _ _ E). cbn.
    split; [split|]; intros H; discriminate.
  - rewrite (script_solver_raises _ _ _ E). cbn.
    split; [split|]; intros H; [now injection H as -> .. | reflexivity].
Qed.

Lemma script_fails_only_with_solver_witness :
  snd (script (fun _ _ _ => Raise ZeroDivisionError) (loaded [Show]))
  = loaded [Show].
Proof.
  apply (proj2 (script_fails_only_with_solver
                  (fun _ _ _ => Raise ZeroDivisionError)
                  (loaded [Show]) ZeroDivisionError)).
  reflexivity.
Defined.

(** X9: whatever the solver and the starting world, the script leaves the
    module parameters as they were and only adds to the figure: what was
    drawn before stays in front, in order, and nothing added writes a
    file. *)
Theorem script_keeps_globals (odeint : solver) (w : world) :
  env (snd (script odeint w)) = env w /\
  exists added,
    figure (snd (script odeint w)) = figure w ++ added /\
    existsb writes_file added = false.
Proof.
  destruct (fst (call odeint Cg0 z w)) as [y|e] eqn:E.
  - rewrite (script_after_solver _ _ _ E). cbn. split; [reflexivity|].
    eexists. split; reflexivity.
  - rewrite (script_solver_raises _ _ _ E). split; [reflexivity|].
    exists []. split; [now rewrite app_nil_r | reflexivity].
Qed.

(** X10: with a solver that keeps the solution invariant, a run that
    completes has drawn a curve whose x data and y data have the same
    number of points. *)
Theorem script_plot_shapes_agree (odeint : solver) (w : world) :
  solution_invariant odeint ->
  fst (script odeint w) = Ok tt ->
  exists xs ys rest,
    figure (snd (script odeint w)) = figure w ++ Plot xs ys :: rest /\
    length xs = length ys.
Proof.
  intros I H.
  destruct (fst (call odeint Cg0 z w)) as [y|e] eqn:E.
  - rewrite (script_after_solver _ _ _ E). cbn.
    exists z, (normalized y), [Xlabel "z [m]"; Ylabel "Cg [g/L]"; Show].
    split; [reflexivity|].
    unfold call in E. cbn [fst] in E.
    destruct (I _ _ _ _ E) as (L & _).
    unfold normalized. now rewrite length_map.
  - rewrite (script_solver_raises _ _ _ E) in H. discriminate.
Qed.

Lemma script_plot_shapes_agree_witness :
  exists xs ys rest,
    figure (snd (script hold (loaded []))) = [] ++ Plot xs ys :: rest /\
    length xs = length ys.
Proof.
  apply (script_plot_shapes_agree hold (loaded [])).
  - intros func y0 t ys H. injection H as <-.
    rewrite length_map. split; [reflexivity|].
    destruct t; [congruence | reflexivity].
  - reflexivity.
Defined.

(** X11: normalising keeps the shape of a curve: a sequence that never
    increases still never increases after division by [Cg0], and values
    between 0 and [Cg0] land between 0 and 1. *)
Theorem normalized_keeps_order_and_range (y : list Q) :
  (Forall (fun p => snd p <= fst p) (adjacent y) ->
   Forall (fun p => snd p <= fst p) (adjacent (normalized y))) /\
  (Forall (fun v => 0 <= v /\ v <= Cg0) y ->
   Forall (fun v => 0 <= v /\ v <= 1) (normalized y)).
Proof.
  assert (P : 0 < / Cg0) by reflexivity.
  assert (N : / Cg0 * Cg0 == 1) by reflexivity.
  split.
  - unfold adjacent, normalized.
    induction y as [|a y IH]; intros H; [constructor|].
    destruct y as [|b y]; [constructor|].
    cbn [map tl combine] in *. inversion H as [|? ? Hab Hy]; subst.
    constructor; [|apply IH, Hy].
    cbn [fst snd] in *. unfold Qdiv. nra.
  - unfold normalized. induction 1 as [|v y (H0 & H1) _ IH]; cbn [map];
      constructor; [|exact IH].
    unfold Qdiv. split; nra.
Qed.

Lemma normalized_keeps_order_and_range_witness :
  Forall (fun p => snd p <= fst p) (adjacent (normalized [Cg0; 1 # 10000; 0]))
  /\ Forall (fun v => 0 <= v /\ v <= 1) (normalized [Cg0; 1 # 10000; 0]).
Proof.
  split.
  - apply (proj1 (normalized_keeps_order_and_range [Cg0; 1 # 10000; 0])).
    repeat constructor; discriminate.
  - apply (proj2 (normalized_keeps_order_and_range [Cg0; 1 # 10000; 0])).
    repeat constructor; discriminate.
Defined.
